(** * Transactions: windowed pagination with live merge

    A shallow embedding of the [Transactions] React component
    (src/components/Transactions.js) and of the environment that drives it:
    the page location it reads its query parameters from, the WebSocket
    emitter it listens to, the promises returned by [props.updateData] and
    React's update cycle.  Each method of the class is a function on a
    [World]; the events of the environment are a [step] function over it. *)

From Stdlib Require Import Bool List String ZArith Lia.
Import ListNotations.
Open Scope string_scope.

(** ** JavaScript values used by the component *)

(** A value that is a string or [null]; [None] is [null]. *)
Definition JsString := option string.

(** Truthiness of a string-or-null: [null] and the empty string are falsy. *)
Definition truthy (v : JsString) : bool :=
  match v with
  | Some s => negb (s =? "")
  | None => false
  end.

(** Strict equality [===] of two string-or-null values. *)
Definition strictEq (a b : JsString) : bool :=
  match a, b with
  | Some x, Some y => x =? y
  | None, None => true
  | _, _ => false
  end.

(** Any value a promise may be rejected with, as [this.state.error] holds
    it: [null] (the initial value), [undefined], a boolean, a number, a
    string, or an object such as an [Error] with its message. *)
Inductive JsValue :=
| JsNull
| JsUndefined
| JsBool (b : bool)
| JsNumber (z : Z)
| JsStr (s : string)
| JsObject (message : string).

(** Truthiness of a value: [null], [undefined], [false], [0] and the empty
    string are falsy, every object is truthy. *)
Definition truthyValue (v : JsValue) : bool :=
  match v with
  | JsNull | JsUndefined => false
  | JsBool b => b
  | JsNumber z => negb (z =? 0)%Z
  | JsStr s => negb (s =? "")
  | JsObject _ => true
  end.

(** ** Data model *)

(** An element of [state.transactions]: a record of a fetched page, or the
    message of the live feed itself ([updateListWs] stores [wsData] as it
    came, so the element carries the message's [type] when it has one). *)
Module tx.
Record t := mk {
  type : JsString;
  tx_id : string;
  timestamp : Z
}.
End tx.

(** What [props.updateData] resolves with. *)
Module data.
Record t := mk {
  transactions : list tx.t;
  has_more : bool
}.
End data.

(** The object built by [obtainQueryParams]. *)
Record QueryParams := mkQueryParams {
  timestamp : JsString;
  hash : JsString;
  page : JsString
}.

(** lodash [isEqual] on two such objects: field by field. *)
Definition isEqual (a b : QueryParams) : bool :=
  strictEq (timestamp a) (timestamp b)
  && strictEq (hash a) (hash b)
  && strictEq (page a) (page b).

(** The query parameters with every field [null]. *)
Definition noQueryParams : QueryParams := mkQueryParams None None None.

(** [this.state] *)
Record State := mkState {
  transactions : list tx.t;
  firstHash : JsString;
  firstTimestamp : option Z;
  lastHash : JsString;
  lastTimestamp : option Z;
  loading : bool;
  hasAfter : bool;
  hasBefore : bool;
  queryParams : QueryParams;
  error : JsValue
}.

(** The three states of the controller, read off [loading] and [error] as
    [componentDidUpdate] and [render] test them: an error is one that is
    truthy. *)
Inductive Status := Idle | Loading | Error.

Definition status (s : State) : Status :=
  if loading s then Loading
  else if truthyValue (error s) then Error else Idle.

(** ** The page location *)

(** [window.location.search] as the entries of its [URLSearchParams]. *)
Definition Search := list (string * string).

(** [URLSearchParams.get]: the first value of the key, or [null]. *)
Fixpoint searchGet (key : string) (q : Search) : JsString :=
  match q with
  | [] => None
  | (k, v) :: q' => if k =? key then Some v else searchGet key q'
  end.

(** [URLSearchParams.delete]: every entry of the key is dropped. *)
Definition searchDelete (key : string) (q : Search) : Search :=
  filter (fun kv => negb (fst kv =? key)) q.

(** ** The component and its environment *)

Record World := mkWorld {
  (** [this.state] *)
  state : State;
  (** [window.location.search] *)
  search : Search;
  (** the channels on which [WebSocketHandler] holds [this.handleWebsocket] *)
  listeners : list string;
  (** React: the component is mounted *)
  mounted : bool;
  (** the [queryParams] of the [getData] calls whose promise is not settled *)
  pending : list QueryParams;
  (** React: the number of state updates applied to the component *)
  updates : nat
}.

Definition withState (s : State) (w : World) : World :=
  mkWorld s (search w) (listeners w) (mounted w) (pending w) (updates w).

Definition withSearch (q : Search) (w : World) : World :=
  mkWorld (state w) q (listeners w) (mounted w) (pending w) (updates w).

Definition withListeners (l : list string) (w : World) : World :=
  mkWorld (state w) (search w) l (mounted w) (pending w) (updates w).

Definition withMounted (m : bool) (w : World) : World :=
  mkWorld (state w) (search w) (listeners w) m (pending w) (updates w).

Definition withPending (p : list QueryParams) (w : World) : World :=
  mkWorld (state w) (search w) (listeners w) (mounted w) p (updates w).

(** [this.setState(patch)].  React applies the patch to a mounted component
    and schedules its update; on an unmounted component the call is dropped
    (React only warns). *)
Definition setState (patch : State -> State) (w : World) : World :=
  if mounted w
  then mkWorld (patch (state w)) (search w) (listeners w) (mounted w)
               (pending w) (S (updates w))
  else w.

(** [obtainQueryParams] *)
Definition obtainQueryParams (w : World) : QueryParams :=
  mkQueryParams (searchGet "ts" (search w))
                (searchGet "hash" (search w))
                (searchGet "page" (search w)).

(** [clearQueryParams]: the three keys are deleted from the location. *)
Definition clearQueryParams (w : World) : World :=
  withSearch
    (searchDelete "page" (searchDelete "hash" (searchDelete "ts" (search w))))
    w.

(** [WebSocketHandler.on(channel, this.handleWebsocket)] *)
Definition on (channel : string) (w : World) : World :=
  withListeners (listeners w ++ [channel]) w.

(** [WebSocketHandler.removeListener(channel, this.handleWebsocket)]: one
    registration of the handler on the channel is removed. *)
Fixpoint removeOne (channel : string) (l : list string) : list string :=
  match l with
  | [] => []
  | c :: l' => if c =? channel then l' else c :: removeOne channel l'
  end.

Definition removeListener (channel : string) (w : World) : World :=
  withListeners (removeOne channel (listeners w)) w.

(** [getData(queryParams)], the call itself: [props.updateData] is called and
    its promise is pending, with the continuation closed over [queryParams]. *)
Definition getData (qp : QueryParams) (w : World) : World :=
  withPending (pending w ++ [qp]) w.

(** [handleDataFetched(data, queryParams)] *)
Definition handleDataFetched (d : data.t) (qp : QueryParams) (w : World)
  : World :=
  let txs := data.transactions d in
  let '(fH, lH, fT, lT) :=
    match txs with
    | [] => (None, None, None, None)
    | t0 :: _ =>
        (Some (tx.tx_id t0), Some (tx.tx_id (last txs t0)),
         Some (tx.timestamp t0), Some (tx.timestamp (last txs t0)))
    end in
  let '(hasAfter', hasBefore', w1) :=
    if strictEq (page qp) (Some "previous") then
      (* went back to the most recent page: the URL parameters are cleared *)
      (true, data.has_more d,
       if negb (data.has_more d) then clearQueryParams w else w)
    else if strictEq (page qp) (Some "next") then
      (data.has_more d, true, w)
    else
      (* first load without parameters *)
      (data.has_more d, false, w) in
  setState (fun s => mkState txs fH fT lH lT false hasAfter' hasBefore' qp
                             (error s)) w1.

(** The state patch [{loading: l, error: e}]: the other fields are kept. *)
Definition patchLoadingError (l : bool) (e : JsValue) (s : State) : State :=
  mkState (transactions s) (firstHash s) (firstTimestamp s) (lastHash s)
          (lastTimestamp s) l (hasAfter s) (hasBefore s) (queryParams s) e.

(** The rejection handler of [getData]: [setState({loading: false, error: e})] *)
Definition handleFetchError (e : JsValue) (w : World) : World :=
  setState (patchLoadingError false e) w.

(** How the promise of [props.updateData] settles. *)
Inductive Settlement :=
| Resolved (d : data.t)
| Rejected (e : JsValue).

(** The continuation of [getData(queryParams)].  [randomBelowHalf] is the
    outcome of the test [Math.random() < 0.5] made when the promise resolved:
    the first [then] turns a resolved promise into the rejection
    ['simulated error!'], or passes the data on after a delay; a rejection of
    [props.updateData] itself falls through to the rejection handler of the
    second [then]. *)
Definition getDataSettled (qp : QueryParams) (o : Settlement)
           (randomBelowHalf : bool) (w : World) : World :=
  match o with
  | Resolved d =>
      if randomBelowHalf then handleFetchError (JsStr "simulated error!") w
      else handleDataFetched d qp w
  | Rejected e => handleFetchError e w
  end.

(** [componentDidUpdate(prevProps, prevState)] *)
Definition componentDidUpdate (prevState : State) (w : World) : World :=
  let queryParams' := obtainQueryParams w in
  let justErrored :=
    truthyValue (error (state w)) && negb (truthyValue (error prevState)) in
  let skipGetData := loading (state w) || justErrored in
  if negb skipGetData && negb (isEqual (queryParams (state w)) queryParams')
  then
    if truthy (hash queryParams') || hasBefore (state w) then
      getData queryParams' (setState (patchLoadingError true JsNull) w)
    else w
  else w.

(** Modelled from the spec: [helpers.updateListWs(list, newEl, max)] of
    src/utils/helpers.js, which is not among the sources.  The merge
    algorithm of the specification: a record whose id is already in the
    window is not merged; otherwise the last element is dropped when the
    window holds [max] records, and the new record is inserted at
    position 0. *)
Definition helpers_updateListWs (l : list tx.t) (newEl : tx.t) (max : nat)
  : list tx.t :=
  if existsb (fun t => tx.tx_id t =? tx.tx_id newEl) l then l
  else newEl :: (if (List.length l =? max)%nat then removelast l else l).

Section Transactions.

(** [TX_COUNT] of src/constants.js (not among the sources): the page size. *)
Variable TX_COUNT : nat.

(** [props.shouldUpdateList] *)
Variable shouldUpdateList : tx.t -> bool.

(** [updateListWs(tx)] *)
Definition updateListWs (t : tx.t) (w : World) : World :=
  if negb (hasBefore (state w)) then
    if shouldUpdateList t then
      let transactions0 := transactions (state w) in
      let hasAfter' :=
        hasAfter (state w)
        || ((List.length transactions0 =? TX_COUNT)%nat
            && negb (hasAfter (state w))) in
      let transactions' := helpers_updateListWs transactions0 t TX_COUNT in
      match transactions' with
      | [] => w  (* transactions[0] is undefined: a TypeError, no setState *)
      | t0 :: _ =>
          let l := last transactions' t0 in
          setState (fun s => mkState transactions' (Some (tx.tx_id t0))
                                     (Some (tx.timestamp t0))
                                     (Some (tx.tx_id l))
                                     (Some (tx.timestamp l))
                                     (loading s) hasAfter' (hasBefore s)
                                     (queryParams s) (error s)) w
      end
    else w
  else w.

(** [handleWebsocket(wsData)] *)
Definition handleWebsocket (wsData : tx.t) (w : World) : World :=
  if strictEq (tx.type wsData) (Some "network:new_tx_accepted")
  then updateListWs wsData w
  else w.

(** The constructor: the initial [this.state], with the query parameters
    of the location the page was opened at. *)
Definition construct (q : Search) : World :=
  let w0 :=
    mkWorld (mkState [] None None None None true false false noQueryParams
                     JsNull) q [] false [] 0 in
  withState (mkState [] None None None None true false false
                     (obtainQueryParams w0) JsNull) w0.

(** [componentDidMount] *)
Definition componentDidMount (w : World) : World :=
  on "network" (getData (queryParams (state w)) w).

(** [componentWillUnmount] *)
Definition componentWillUnmount (w : World) : World :=
  removeListener "network" w.

(** ** React's update cycle and the events of the environment *)

(** Whether a state update was applied between two worlds. *)
Definition rendered (before after : World) : bool :=
  negb (updates after =? updates before)%nat.

(** After a state update applied to the mounted component React calls
    [componentDidUpdate] with the state before it; an update made inside
    [componentDidUpdate] is applied when it returns and the method is
    called again.  [fuel] bounds the repetitions; two are enough
    ([lifecycle_settles]). *)
Fixpoint lifecycle (fuel : nat) (prevState : State) (before w : World)
  : World :=
  match fuel with
  | 0 => w
  | S fuel' =>
      if mounted w && rendered before w
      then lifecycle fuel' (state w) w (componentDidUpdate prevState w)
      else w
  end.

(** One handler run from outside React, followed by the update cycle it
    causes. *)
Definition handled (handler : World -> World) (w : World) : World :=
  lifecycle 2 (state w) w (handler w).

Inductive Event :=
(** the location becomes [q] (a pagination link was followed, or nothing
    changed) and the component is rendered again *)
| Render (q : Search)
(** [WebSocketHandler] emits [wsData] on [channel] *)
| Emit (channel : string) (wsData : tx.t)
(** the [i]-th pending promise of [props.updateData] settles *)
| Settle (i : nat) (o : Settlement) (randomBelowHalf : bool)
(** React unmounts the component *)
| Unmount.

(** [emit]: every registration on the channel is called in turn. *)
Definition emit (channel : string) (wsData : tx.t) (w : World) : World :=
  fold_left (fun w' c => if c =? channel
                         then handled (handleWebsocket wsData) w'
                         else w')
            (listeners w) w.

(** The list without its [i]-th element. *)
Fixpoint dropNth {A : Type} (i : nat) (l : list A) : list A :=
  match l, i with
  | [], _ => []
  | _ :: l', 0 => l'
  | x :: l', S i' => x :: dropNth i' l'
  end.

(** What one event of the environment does to the world. *)
Definition step (w : World) (ev : Event) : World :=
  match ev with
  | Render q =>
      let w1 := withSearch q w in
      if mounted w
      then lifecycle 1 (state w1) w1 (componentDidUpdate (state w1) w1)
      else w1
  | Emit channel wsData => emit channel wsData w
  | Settle i o randomBelowHalf =>
      match nth_error (pending w) i with
      | Some qp =>
          handled (getDataSettled qp o randomBelowHalf)
                  (withPending (dropNth i (pending w)) w)
      | None => w
      end
  | Unmount =>
      if mounted w then withMounted false (componentWillUnmount w) else w
  end.

(** The component is created at location [q] and mounted. *)
Definition mount (q : Search) : World :=
  componentDidMount (withMounted true (construct q)).

(** The events [evs] in turn, from [w]. *)
Definition run (w : World) (evs : list Event) : World :=
  fold_left step evs w.

(** ** The pagination links *)

(** [URLSearchParams.set]: the first entry of the key takes the value and
    the other entries of the key are dropped; a key that is absent is
    appended. *)
Fixpoint searchSet (key value : string) (q : Search) : Search :=
  match q with
  | [] => [(key, value)]
  | (k, v) :: q' =>
      if k =? key then (key, value) :: searchDelete key q'
      else (k, v) :: searchSet key value q'
  end.

(** [paginationUrl(ts, hash, page)], the query of the URL it returns: the
    entries of the location with 'ts', 'hash' and 'page' set.  The path and
    the fragment of the result are those of the location; the arguments are
    taken as the strings [set] turns them into. *)
Definition paginationUrl (ts hash page : string) (w : World) : Search :=
  searchSet "page" page (searchSet "hash" hash (searchSet "ts" ts (search w))).

(** [render]: [loadPagination] returns [null] for an empty window. *)
Definition paginationShown (s : State) : bool :=
  negb (List.length (transactions s) =? 0)%nat.

(** [render]: the test that gives the 'Previous' item the class
    [disabled]. *)
Definition previousDisabled (s : State) : bool :=
  negb (hasBefore s) || (List.length (transactions s) =? 0)%nat || loading s.

(** [render]: the test that gives the 'Next' item the class [disabled]. *)
Definition nextDisabled (s : State) : bool :=
  negb (hasAfter s) || (List.length (transactions s) =? 0)%nat || loading s.

(** ** Sample data *)

Definition rec1 : tx.t := tx.mk None "0a" 30.

Definition rec2 : tx.t := tx.mk None "0b" 20.

(** A live-feed message announcing a new transaction, and one of another
    type. *)
Definition liveTx : tx.t := tx.mk (Some "network:new_tx_accepted") "0c" 40.

Definition otherMsg : tx.t := tx.mk (Some "dashboard:metrics") "0d" 50.

(** A page of two records with more behind it, and the same page with
    nothing more. *)
Definition fullPage : data.t := data.mk [rec1; rec2] true.

Definition lastPage : data.t := data.mk [rec1; rec2] false.

(** The locations the pagination links of that page lead to, and the query
    parameters read from them. *)
Definition nextSearch : Search :=
  [("ts", "20"); ("hash", "0b"); ("page", "next")].

Definition nextParams : QueryParams :=
  mkQueryParams (Some "20") (Some "0b") (Some "next").

Definition previousSearch : Search :=
  [("ts", "30"); ("hash", "0a"); ("page", "previous")].

Definition previousParams : QueryParams :=
  mkQueryParams (Some "30") (Some "0a") (Some "previous").

(** A [props.shouldUpdateList] that accepts every record. *)
Definition acceptAll (t : tx.t) : bool := true.

(** ** Predicates the properties are stated with *)



(** Whether [componentDidUpdate] finds new query parameters to fetch for:
    the location differs from the parameters of the state, and it names a
    hash or the window is not the most recent page. *)
Definition fetchDue (w : World) : bool :=
  negb (isEqual (queryParams (state w)) (obtainQueryParams w))
  && (truthy (hash (obtainQueryParams w)) || hasBefore (state w)).

(** The world after [componentDidUpdate] has issued a fetch. *)
Definition refetching (w : World) : World :=
  getData (obtainQueryParams w) (setState (patchLoadingError true JsNull) w).

(** The window holds at most [TX_COUNT] records. *)
Definition withinPage (w : World) : Prop :=
  (List.length (transactions (state w)) <= TX_COUNT)%nat.

(** The pages that [props.updateData] resolves with hold at most
    [TX_COUNT] records. *)
Definition pageWithin (ev : Event) : Prop :=
  match ev with
  | Settle _ (Resolved d) _ =>
      (List.length (data.transactions d) <= TX_COUNT)%nat
  | _ => True
  end.

(** At most one fetch is pending, and while one is, the state is loading
    with no error. *)
Definition oneFetch (w : World) : Prop :=
  (List.length (pending w) <= 1)%nat
  /\ (pending w <> [] ->
      loading (state w) = true /\ error (state w) = JsNull).

(** The handler is registered on 'network', once, exactly while the
    component is mounted. *)
Definition subscribed (w : World) : Prop :=
  listeners w = if mounted w then ["network"] else [].

(** The boundary cursors are those of the first and of the last record of
    the window, and [null] when the window is empty. *)
Definition cursorsMatch (s : State) : Prop :=
  match transactions s with
  | [] =>
      firstHash s = None /\ firstTimestamp s = None
      /\ lastHash s = None /\ lastTimestamp s = None
  | t0 :: _ =>
      firstHash s = Some (tx.tx_id t0)
      /\ firstTimestamp s = Some (tx.timestamp t0)
      /\ lastHash s = Some (tx.tx_id (last (transactions s) t0))
      /\ lastTimestamp s = Some (tx.timestamp (last (transactions s) t0))
  end.

(** With no fetch pending the mounted component is not loading, and a
    loading state carries no error. *)
Definition idleWhenSettled (w : World) : Prop :=
  (mounted w = true -> pending w = [] -> loading (state w) = false)
  /\ (loading (state w) = true -> error (state w) = JsNull).

(** What the delivery of a live-feed message keeps of the world [w]. *)
Definition liveFrame (w w' : World) : Prop :=
  hasBefore (state w') = hasBefore (state w)
  /\ queryParams (state w') = queryParams (state w)
  /\ search w' = search w
  /\ mounted w' = mounted w
  /\ listeners w' = listeners w
  /\ (hasAfter (state w) = true -> hasAfter (state w') = true)
  /\ (fetchDue w = false ->
      pending w' = pending w
      /\ loading (state w') = loading (state w)
      /\ error (state w') = error (state w)).

(** Case analysis over the tests a handler makes. *)
Ltac handler_cases :=
  unfold handleWebsocket, updateListWs, getDataSettled, handleDataFetched,
    handleFetchError, refetching, getData, clearQueryParams, setState,
    withSearch, withPending;
  repeat match goal with
         | |- context [if ?b then _ else _] => destruct b eqn:?
         | |- context [match ?l with [] => _ | _ :: _ => _ end] =>
             destruct l eqn:?
         end;
  simpl; auto.

(** ** Properties *)

(** *** JavaScript values *)

Lemma strictEq_spec (a b : JsString) : strictEq a b = true <-> a = b.
Proof.
  destruct a as [x|], b as [y|]; simpl; split; intro H;
    try discriminate; try reflexivity.
  - apply String.eqb_eq in H. now subst.
  - inversion H. apply String.eqb_refl.
Qed.

Lemma strictEq_refl (a : JsString) : strictEq a a = true.
Proof. now apply strictEq_spec. Qed.

(** *** The location *)

Lemma searchGet_searchDelete_same (key : string) (q : Search) :
  searchGet key (searchDelete key q) = None.
Proof.
  induction q as [|[k v] q IH]; simpl; [reflexivity|].
  destruct (k =? key) eqn:E; simpl; [exact IH|].
  now rewrite E.
Qed.

Lemma searchGet_searchDelete_None (key key' : string) (q : Search) :
  searchGet key q = None -> searchGet key (searchDelete key' q) = None.
Proof.
  induction q as [|[k v] q IH]; simpl; [reflexivity|].
  destruct (k =? key) eqn:E; [discriminate|]. intro H.
  destruct (k =? key'); simpl; [now apply IH|].
  rewrite E. now apply IH.
Qed.

Lemma obtainQueryParams_clearQueryParams (w : World) :
  obtainQueryParams (clearQueryParams w) = noQueryParams.
Proof.
  unfold obtainQueryParams, clearQueryParams, noQueryParams; simpl.
  f_equal.
  - do 2 apply searchGet_searchDelete_None.
    apply searchGet_searchDelete_same.
  - apply searchGet_searchDelete_None, searchGet_searchDelete_same.
  - apply searchGet_searchDelete_same.
Qed.

(** *** What a handler leaves alone *)

Lemma setState_state (patch : State -> State) (w : World) :
  mounted w = true -> state (setState patch w) = patch (state w).
Proof. unfold setState. now intros ->. Qed.

Lemma setState_search (patch : State -> State) (w : World) :
  search (setState patch w) = search w.
Proof. unfold setState. now destruct (mounted w). Qed.

Lemma setState_unmounted (patch : State -> State) (w : World) :
  mounted w = false -> setState patch w = w.
Proof. unfold setState. now intros ->. Qed.

Lemma fold_left_fixed {A B : Type} (f : A -> B -> A) (l : list B) (a : A) :
  (forall b, f a b = a) -> fold_left f l a = a.
Proof.
  intro H. induction l as [|b l IH]; simpl; [reflexivity|].
  now rewrite H.
Qed.

Lemma rendered_same (w : World) : rendered w w = false.
Proof. unfold rendered. now rewrite Nat.eqb_refl. Qed.

Lemma handled_fixed (handler : World -> World) (w : World) :
  handler w = w -> handled handler w = w.
Proof.
  intro H. unfold handled. rewrite H. simpl.
  now rewrite rendered_same, andb_false_r.
Qed.

Lemma emit_fixed (channel : string) (wsData : tx.t) (w : World) :
  handleWebsocket wsData w = w -> emit channel wsData w = w.
Proof.
  intro H. unfold emit. apply fold_left_fixed. intro c.
  destruct (c =? channel); [|reflexivity].
  now apply handled_fixed.
Qed.

(** *** Fetch results *)

(** C1. The flags set by [handleDataFetched]: after a fetch whose
    direction is 'next', [hasBefore] is true and [hasAfter] is the page's
    [has_more]; after a 'previous' fetch, [hasAfter] is true, [hasBefore]
    is [has_more], and when [has_more] is false the query parameters of the
    location read back as the all-absent triple; after a fetch with no
    direction, [hasBefore] is false and [hasAfter] is [has_more]. *)
Theorem handleDataFetched_flags (d : data.t) (qp : QueryParams) (w : World) :
  mounted w = true ->
  let w' := handleDataFetched d qp w in
  (page qp = Some "next" ->
     hasBefore (state w') = true /\ hasAfter (state w') = data.has_more d)
  /\ (page qp = Some "previous" ->
        hasAfter (state w') = true
        /\ hasBefore (state w') = data.has_more d
        /\ (data.has_more d = false -> obtainQueryParams w' = noQueryParams))
  /\ (page qp = None ->
        hasBefore (state w') = false
        /\ hasAfter (state w') = data.has_more d).
Proof.
  intros Hm w'. subst w'. unfold handleDataFetched.
  assert (Hm' : mounted (if negb (data.has_more d)
                         then clearQueryParams w else w) = true)
    by (destruct (data.has_more d); simpl; assumption).
  destruct (data.transactions d) as [|t0 txs];
    (split; [|split]; intros Hp; rewrite Hp; simpl;
     rewrite setState_state by assumption; simpl;
     repeat (split; [reflexivity|]); try reflexivity).
  all: intro Hmore; unfold obtainQueryParams; rewrite setState_search;
    rewrite Hmore; simpl; apply obtainQueryParams_clearQueryParams.
Qed.

(** *** Live feed *)

(** C4. When [hasBefore] is true a live-feed message changes nothing,
    whatever [props.shouldUpdateList] says of it: neither the window nor
    any other part of the state, nor anything else of the world. *)
Theorem updateListWs_paginated_back (w : World) (wsData : tx.t) :
  hasBefore (state w) = true ->
  updateListWs wsData w = w
  /\ handleWebsocket wsData w = w
  /\ forall channel, step w (Emit channel wsData) = w.
Proof.
  intro Hb.
  assert (Hu : updateListWs wsData w = w)
    by (unfold updateListWs; now rewrite Hb).
  assert (Hh : handleWebsocket wsData w = w)
    by (unfold handleWebsocket; now destruct (strictEq _ _)).
  repeat split; try assumption.
  intro channel. simpl. now apply emit_fixed.
Qed.

(** C10. A message whose [type] is not 'network:new_tx_accepted' changes
    nothing, on the 'network' channel as on any other. *)
Theorem handleWebsocket_other_type (w : World) (wsData : tx.t) :
  tx.type wsData <> Some "network:new_tx_accepted" ->
  handleWebsocket wsData w = w
  /\ step w (Emit "network" wsData) = w.
Proof.
  intro Ht.
  assert (Hh : handleWebsocket wsData w = w).
  { unfold handleWebsocket.
    destruct (strictEq (tx.type wsData) _) eqn:E; [|reflexivity].
    apply strictEq_spec in E. contradiction. }
  split; [assumption|]. simpl. now apply emit_fixed.
Qed.

(** *** The merge of a live record *)

Lemma helpers_updateListWs_present (l : list tx.t) (newEl : tx.t)
      (max : nat) :
  In (tx.tx_id newEl) (map tx.tx_id l) ->
  helpers_updateListWs l newEl max = l.
Proof.
  intro Hin. unfold helpers_updateListWs.
  replace (existsb _ l) with true; [reflexivity|].
  symmetry. apply existsb_exists.
  apply in_map_iff in Hin. destruct Hin as [t [Hid Ht]].
  exists t. split; [assumption|]. now apply String.eqb_eq.
Qed.

Lemma helpers_updateListWs_holds (l : list tx.t) (newEl : tx.t)
      (max : nat) :
  In (tx.tx_id newEl) (map tx.tx_id (helpers_updateListWs l newEl max)).
Proof.
  unfold helpers_updateListWs.
  destruct (existsb _ l) eqn:E.
  - apply existsb_exists in E. destruct E as [t [Ht Hid]].
    apply String.eqb_eq in Hid. apply in_map_iff. now exists t.
  - simpl. now left.
Qed.

Lemma helpers_updateListWs_nonempty (l : list tx.t) (newEl : tx.t)
      (max : nat) :
  helpers_updateListWs l newEl max <> [].
Proof.
  intro H. pose proof (helpers_updateListWs_holds l newEl max) as Hin.
  rewrite H in Hin. contradiction.
Qed.

Lemma removelast_length {A : Type} (l : list A) :
  List.length (removelast l) = pred (List.length l).
Proof.
  rewrite removelast_firstn_len, length_firstn. lia.
Qed.

Lemma helpers_updateListWs_length (l : list tx.t) (newEl : tx.t)
      (max : nat) :
  (0 < max)%nat -> (List.length l <= max)%nat ->
  (List.length (helpers_updateListWs l newEl max) <= max)%nat.
Proof.
  intros Hpos Hle. unfold helpers_updateListWs.
  destruct (existsb _ l); [assumption|].
  destruct (List.length l =? max)%nat eqn:E; simpl.
  - apply Nat.eqb_eq in E. rewrite removelast_length. lia.
  - apply Nat.eqb_neq in E. lia.
Qed.

Lemma updateListWs_accepted (t : tx.t) (w : World) :
  mounted w = true -> hasBefore (state w) = false ->
  shouldUpdateList t = true ->
  transactions (state (updateListWs t w))
  = helpers_updateListWs (transactions (state w)) t TX_COUNT
  /\ hasAfter (state (updateListWs t w))
     = hasAfter (state w)
       || ((List.length (transactions (state w)) =? TX_COUNT)%nat
           && negb (hasAfter (state w)))
  /\ hasBefore (state (updateListWs t w)) = false
  /\ loading (state (updateListWs t w)) = loading (state w)
  /\ error (state (updateListWs t w)) = error (state w).
Proof.
  intros Hm Hb Hs. unfold updateListWs. rewrite Hb, Hs. simpl.
  pose proof (helpers_updateListWs_nonempty (transactions (state w)) t
                                            TX_COUNT) as Hne.
  destruct (helpers_updateListWs _ t TX_COUNT) as [|t0 l']; [contradiction|].
  rewrite setState_state by assumption. simpl. repeat split. assumption.
Qed.

(** C6. After an accepted live merge [hasAfter] is true exactly when it
    was true before or the window held [TX_COUNT] records before the merge;
    with the window below that size and [hasAfter] false, it stays false. *)
Theorem updateListWs_hasAfter (t : tx.t) (w : World) :
  mounted w = true -> hasBefore (state w) = false ->
  shouldUpdateList t = true ->
  (hasAfter (state (updateListWs t w)) = true
   <-> hasAfter (state w) = true
       \/ List.length (transactions (state w)) = TX_COUNT)
  /\ (hasAfter (state w) = false ->
      List.length (transactions (state w)) <> TX_COUNT ->
      hasAfter (state (updateListWs t w)) = false).
Proof.
  intros Hm Hb Hs.
  destruct (updateListWs_accepted t w Hm Hb Hs) as [_ [Ha _]].
  rewrite Ha. clear Ha.
  destruct (hasAfter (state w)); simpl.
  - split; [|discriminate]. split; auto.
  - rewrite andb_true_r. split.
    + rewrite Nat.eqb_eq. split; [auto|]. now intros [H|H].
    + intros _ Hn. now apply Nat.eqb_neq.
Qed.

(** C8. The live merge is idempotent on the record's id: a record whose
    id is already in the window is not merged, so merging a record twice
    gives the window of merging it once, in the helper and in the state
    set by [updateListWs]. *)
Theorem live_merge_idempotent (l : list tx.t) (t : tx.t) (max : nat)
        (w : World) :
  (In (tx.tx_id t) (map tx.tx_id l) -> helpers_updateListWs l t max = l)
  /\ helpers_updateListWs (helpers_updateListWs l t max) t max
     = helpers_updateListWs l t max
  /\ transactions (state (updateListWs t (updateListWs t w)))
     = transactions (state (updateListWs t w)).
Proof.
  split; [apply helpers_updateListWs_present|].
  split;
    [apply helpers_updateListWs_present, helpers_updateListWs_holds|].
  destruct (hasBefore (state w)) eqn:Hb.
  { assert (H : updateListWs t w = w)
      by (unfold updateListWs; now rewrite Hb).
    now rewrite !H. }
  destruct (shouldUpdateList t) eqn:Hs.
  2:{ assert (H : updateListWs t w = w)
        by (unfold updateListWs; now rewrite Hb, Hs).
      now rewrite !H. }
  destruct (mounted w) eqn:Hm.
  2:{ assert (H : updateListWs t w = w).
      { unfold updateListWs. rewrite Hb, Hs. simpl.
        destruct (helpers_updateListWs _ _ _); [reflexivity|].
        now apply setState_unmounted. }
      now rewrite !H. }
  destruct (updateListWs_accepted t w Hm Hb Hs) as [Ht [_ [Hb' _]]].
  assert (Hm' : mounted (updateListWs t w) = true).
  { unfold updateListWs. rewrite Hb, Hs. simpl.
    destruct (helpers_updateListWs _ _ _); [assumption|].
    unfold setState. now rewrite Hm. }
  destruct (updateListWs_accepted t _ Hm' Hb' Hs) as [Ht' _].
  rewrite Ht', Ht.
  apply helpers_updateListWs_present, helpers_updateListWs_holds.
Qed.

(** *** The update cycle *)

Lemma componentDidUpdate_cases (prevState : State) (w : World) :
  componentDidUpdate prevState w = w
  \/ (loading (state w) = false /\ fetchDue w = true
      /\ componentDidUpdate prevState w = refetching w).
Proof.
  unfold componentDidUpdate, fetchDue, refetching.
  destruct (loading (state w)); simpl; [now left|].
  destruct (truthyValue (error (state w)) && negb (truthyValue (error prevState)));
    simpl; [now left|].
  destruct (isEqual _ _); simpl; [now left|].
  destruct (truthy _ || hasBefore _); [right; auto | now left].
Qed.

Lemma componentDidUpdate_loading (prevState : State) (w : World) :
  loading (state w) = true -> componentDidUpdate prevState w = w.
Proof. unfold componentDidUpdate. now intros ->. Qed.

Lemma componentDidUpdate_mounted (prevState : State) (w : World) :
  mounted (componentDidUpdate prevState w) = mounted w.
Proof.
  destruct (componentDidUpdate_cases prevState w) as [->|[_ [_ ->]]];
    [reflexivity|].
  unfold refetching, setState. destruct (mounted w) eqn:E; simpl; auto.
Qed.

Lemma lifecycle_same (fuel : nat) (prevState : State) (w : World) :
  lifecycle fuel prevState w w = w.
Proof.
  destruct fuel; simpl; [reflexivity|].
  now rewrite rendered_same, andb_false_r.
Qed.

Lemma refetching_loading (w : World) :
  mounted w = true -> loading (state (refetching w)) = true.
Proof. unfold refetching, setState. now intros ->. Qed.

Lemma lifecycle_S (fuel : nat) (prevState : State) (before w : World) :
  lifecycle (S fuel) prevState before w
  = if mounted w && rendered before w
    then lifecycle fuel (state w) w (componentDidUpdate prevState w)
    else w.
Proof. reflexivity. Qed.

(** One more call of [componentDidUpdate] after the one that follows an
    update changes nothing: more fuel gives the same world. *)
Lemma lifecycle_settles (n : nat) (prevState : State) (before w : World) :
  lifecycle (S (S n)) prevState before w = lifecycle 2 prevState before w.
Proof.
  rewrite (lifecycle_S (S n)), (lifecycle_S 1).
  destruct (mounted w && rendered before w) eqn:E; [|reflexivity].
  apply andb_true_iff in E. destruct E as [Hm _].
  destruct (componentDidUpdate_cases prevState w) as [H|[_ [_ H]]];
    rewrite H.
  - now rewrite !lifecycle_same.
  - rewrite (lifecycle_S n), (lifecycle_S 0).
    destruct (mounted (refetching w) && rendered w (refetching w));
      [|reflexivity].
    rewrite componentDidUpdate_loading by now apply refetching_loading.
    now rewrite !lifecycle_same.
Qed.

(** *** Invariants of the event loop *)

Section Invariant.

Variable P : World -> Prop.
Variable ok : Event -> Prop.

Hypothesis P_componentDidUpdate :
  forall prevState w,
    mounted w = true -> P w -> P (componentDidUpdate prevState w).
Hypothesis P_handleWebsocket :
  forall wsData w, P w -> P (handleWebsocket wsData w).
Hypothesis P_getDataSettled :
  forall i qp o r w,
    ok (Settle i o r) -> P w -> nth_error (pending w) i = Some qp ->
    P (getDataSettled qp o r (withPending (dropNth i (pending w)) w)).
Hypothesis P_withSearch : forall q w, P w -> P (withSearch q w).
Hypothesis P_unmount :
  forall w, mounted w = true -> P w ->
            P (withMounted false (componentWillUnmount w)).

Lemma lifecycle_invariant (fuel : nat) :
  forall prevState before w,
    P w -> P (lifecycle fuel prevState before w).
Proof.
  induction fuel as [|fuel IH]; intros prevState before w Hw; simpl;
    [assumption|].
  destruct (mounted w) eqn:Hm; simpl; [|assumption].
  destruct (rendered before w); [|assumption].
  apply IH. now apply P_componentDidUpdate.
Qed.

Lemma emit_invariant (channel : string) (wsData : tx.t) (w : World) :
  P w -> P (emit channel wsData w).
Proof.
  unfold emit. generalize (listeners w) as l.
  intro l. revert w. induction l as [|c l IH]; intros w Hw; simpl;
    [assumption|].
  apply IH. destruct (c =? channel); [|assumption].
  unfold handled. apply lifecycle_invariant.
  now apply P_handleWebsocket.
Qed.

Lemma step_invariant (w : World) (ev : Event) :
  ok ev -> P w -> P (step w ev).
Proof.
  intros Hok Hw. destruct ev as [q|channel wsData|i o r|]; cbn [step].
  - destruct (mounted w) eqn:Hm; [|now apply P_withSearch].
    apply (lifecycle_invariant 1).
    apply P_componentDidUpdate; [exact Hm | now apply P_withSearch].
  - now apply emit_invariant.
  - destruct (nth_error (pending w) i) as [qp|] eqn:E; [|assumption].
    unfold handled. apply lifecycle_invariant.
    now apply P_getDataSettled.
  - destruct (mounted w) eqn:Hm; [|assumption].
    now apply P_unmount.
Qed.

Lemma run_invariant (evs : list Event) :
  forall w, Forall ok evs -> P w -> P (run w evs).
Proof.
  induction evs as [|ev evs IH]; intros w Hok Hw; simpl; [assumption|].
  inversion Hok; subst. apply IH; [assumption|].
  now apply step_invariant.
Qed.

End Invariant.

Lemma handleWebsocket_frame (wsData : tx.t) (w : World) :
  pending (handleWebsocket wsData w) = pending w
  /\ mounted (handleWebsocket wsData w) = mounted w
  /\ listeners (handleWebsocket wsData w) = listeners w
  /\ search (handleWebsocket wsData w) = search w
  /\ loading (state (handleWebsocket wsData w)) = loading (state w)
  /\ error (state (handleWebsocket wsData w)) = error (state w).
Proof. repeat split; handler_cases. Qed.

Lemma getDataSettled_frame (qp : QueryParams) (o : Settlement) (r : bool)
      (w : World) :
  pending (getDataSettled qp o r w) = pending w
  /\ mounted (getDataSettled qp o r w) = mounted w
  /\ listeners (getDataSettled qp o r w) = listeners w.
Proof. repeat split; destruct o; handler_cases. Qed.

Lemma componentDidUpdate_frame (prevState : State) (w : World) :
  listeners (componentDidUpdate prevState w) = listeners w
  /\ search (componentDidUpdate prevState w) = search w
  /\ transactions (state (componentDidUpdate prevState w))
     = transactions (state w)
  /\ hasBefore (state (componentDidUpdate prevState w))
     = hasBefore (state w)
  /\ hasAfter (state (componentDidUpdate prevState w))
     = hasAfter (state w).
Proof.
  destruct (componentDidUpdate_cases prevState w) as [->|[_ [_ ->]]];
    [repeat split|].
  repeat split; handler_cases.
Qed.

Lemma getDataSettled_unmounted (qp : QueryParams) (o : Settlement)
      (r : bool) (w : World) :
  mounted w = false -> state (getDataSettled qp o r w) = state w.
Proof. intro Hm. destruct o; handler_cases; simpl in *; congruence. Qed.

(** **** The window stays within the page size *)

Lemma handleWebsocket_withinPage (wsData : tx.t) (w : World) :
  (0 < TX_COUNT)%nat -> withinPage w -> withinPage (handleWebsocket wsData w).
Proof.
  unfold withinPage. intros Hpos Hw. unfold handleWebsocket.
  destruct (strictEq _ _); [|assumption].
  destruct (hasBefore (state w)) eqn:Hb;
    [unfold updateListWs; now rewrite Hb|].
  destruct (shouldUpdateList wsData) eqn:Hs;
    [|unfold updateListWs; now rewrite Hb, Hs].
  destruct (mounted w) eqn:Hm.
  - destruct (updateListWs_accepted wsData w Hm Hb Hs) as [-> _].
    now apply helpers_updateListWs_length.
  - unfold updateListWs. rewrite Hb, Hs. simpl.
    destruct (helpers_updateListWs _ _ _); [assumption|].
    now rewrite setState_unmounted.
Qed.

Lemma getDataSettled_withinPage (i : nat) (qp : QueryParams)
      (o : Settlement) (r : bool) (w : World) :
  pageWithin (Settle i o r) -> withinPage w ->
  withinPage (getDataSettled qp o r (withPending (dropNth i (pending w)) w)).
Proof.
  unfold withinPage. intros Hok Hw.
  destruct o as [d|e]; simpl in Hok; handler_cases.
Qed.

Lemma run_withinPage (evs : list Event) (w : World) :
  (0 < TX_COUNT)%nat -> Forall pageWithin evs -> withinPage w ->
  withinPage (run w evs).
Proof.
  intros Hpos Hok Hw.
  apply (run_invariant withinPage pageWithin); try assumption.
  - intros prevState w' _ Hw'. unfold withinPage.
    destruct (componentDidUpdate_frame prevState w') as [_ [_ [-> _]]].
    exact Hw'.
  - intros wsData w' Hw'. now apply handleWebsocket_withinPage.
  - intros i qp o r w' Hev Hw' _. now apply getDataSettled_withinPage.
  - intros q w' Hw'. exact Hw'.
  - intros w' _ Hw'. exact Hw'.
Qed.

(** C5. Whatever live-feed messages, fetch completions and failures,
    renderings and unmounting follow the mounting of the component, as long
    as the pages fetched hold at most [TX_COUNT] records, the window holds
    at most [TX_COUNT] records ([TX_COUNT] being a page size, it is
    positive). *)
Theorem window_within_page_size (q : Search) (evs : list Event) :
  (0 < TX_COUNT)%nat -> Forall pageWithin evs ->
  (List.length (transactions (state (run (mount q) evs))) <= TX_COUNT)%nat.
Proof.
  intros Hpos Hok. apply run_withinPage; try assumption.
  unfold withinPage. simpl. lia.
Qed.

(** **** One fetch in flight, issued with the error cleared *)

Lemma dropNth_single {A : Type} (i : nat) (l : list A) (a : A) :
  (List.length l <= 1)%nat -> nth_error l i = Some a -> dropNth i l = [].
Proof.
  destruct l as [|x [|y l]]; simpl; intros Hlen Hnth.
  - now destruct i.
  - destruct i as [|i]; [reflexivity|]. now destruct i.
  - lia.
Qed.

Lemma componentDidUpdate_oneFetch (prevState : State) (w : World) :
  mounted w = true -> oneFetch w -> oneFetch (componentDidUpdate prevState w).
Proof.
  intros Hm [Hlen Hp].
  destruct (componentDidUpdate_cases prevState w) as [->|[Hl [_ ->]]];
    [now split|].
  assert (Hnil : pending w = []).
  { destruct (pending w) as [|qp l] eqn:E; [reflexivity|].
    destruct Hp as [Hp _]; [discriminate|]. congruence. }
  unfold oneFetch, refetching, getData, setState.
  rewrite Hm. simpl. rewrite Hnil. simpl. split; [lia|auto].
Qed.

Lemma run_oneFetch (evs : list Event) (w : World) :
  oneFetch w -> oneFetch (run w evs).
Proof.
  intro Hw.
  apply (run_invariant oneFetch (fun _ => True)); try assumption.
  - apply componentDidUpdate_oneFetch.
  - intros wsData w' [Hlen Hp]. unfold oneFetch.
    destruct (handleWebsocket_frame wsData w')
      as [-> [_ [_ [_ [-> ->]]]]].
    now split.
  - intros i qp o r w' _ [Hlen _] Hnth. unfold oneFetch.
    destruct (getDataSettled_frame qp o r
                (withPending (dropNth i (pending w')) w')) as [-> _].
    simpl. rewrite (dropNth_single i (pending w') qp Hlen Hnth).
    simpl. split; [lia|congruence].
  - intros q w' Hw'. exact Hw'.
  - intros w' _ Hw'. exact Hw'.
  - now apply Forall_forall.
Qed.

Lemma mount_oneFetch (q : Search) : oneFetch (mount q).
Proof. unfold oneFetch. simpl. split; [lia|auto]. Qed.

(** **** The live-feed registration follows the mounting *)

Lemma run_subscribed (evs : list Event) (w : World) :
  subscribed w -> subscribed (run w evs).
Proof.
  intro Hw.
  apply (run_invariant subscribed (fun _ => True)); try assumption.
  - intros prevState w' _ Hw'. unfold subscribed.
    rewrite componentDidUpdate_mounted.
    destruct (componentDidUpdate_frame prevState w') as [-> _]. exact Hw'.
  - intros wsData w' Hw'. unfold subscribed.
    destruct (handleWebsocket_frame wsData w') as [_ [-> [-> _]]].
    exact Hw'.
  - intros i qp o r w' _ Hw' _. unfold subscribed.
    destruct (getDataSettled_frame qp o r
                (withPending (dropNth i (pending w')) w'))
      as [_ [-> ->]].
    exact Hw'.
  - intros q w' Hw'. exact Hw'.
  - intros w' Hm Hw'. unfold subscribed in *. simpl.
    rewrite Hw', Hm. reflexivity.
  - now apply Forall_forall.
Qed.

Lemma mount_subscribed (q : Search) : subscribed (mount q).
Proof. reflexivity. Qed.

(** *** Failed fetches *)





(** *** Errors and re-fetching *)

Lemma handleDataFetched_state (d : data.t) (qp : QueryParams) (w : World) :
  mounted w = true ->
  loading (state (handleDataFetched d qp w)) = false
  /\ error (state (handleDataFetched d qp w)) = error (state w)
  /\ transactions (state (handleDataFetched d qp w)) = data.transactions d
  /\ queryParams (state (handleDataFetched d qp w)) = qp.
Proof. intro Hm. repeat split; handler_cases; simpl in *; congruence. Qed.

Lemma componentDidUpdate_no_error (prevState : State) (w : World) :
  mounted w = true -> error (state w) = JsNull ->
  error (state (componentDidUpdate prevState w)) = JsNull.
Proof.
  intros Hm He.
  destruct (componentDidUpdate_cases prevState w) as [->|[_ [_ ->]]];
    [assumption|].
  unfold refetching, getData, setState. now rewrite Hm.
Qed.


Lemma componentDidUpdate_same_state (w : World) :
  loading (state w) = false -> fetchDue w = true ->
  componentDidUpdate (state w) w = refetching w.
Proof.
  unfold fetchDue, componentDidUpdate, refetching. intros Hl Hd.
  apply andb_true_iff in Hd. destruct Hd as [Hne Hor].
  rewrite Hl, Hne, Hor. simpl.
  destruct (truthyValue (error (state w))); reflexivity.
Qed.


(** *** Teardown *)

Lemma handled_unmounted (handler : World -> World) (w : World) :
  mounted (handler w) = false -> handled handler w = handler w.
Proof. intro Hm. unfold handled. rewrite lifecycle_S. now rewrite Hm. Qed.

Lemma step_unmounted_state (w : World) (ev : Event) :
  mounted w = false -> listeners w = [] -> state (step w ev) = state w.
Proof.
  intros Hm Hl. destruct ev as [q'|channel wsData|i o r|]; cbn [step].
  - now rewrite Hm.
  - unfold emit. now rewrite Hl.
  - destruct (nth_error (pending w) i) as [qp|]; [|reflexivity].
    rewrite handled_unmounted.
    + now rewrite getDataSettled_unmounted.
    + now destruct (getDataSettled_frame qp o r
                      (withPending (dropNth i (pending w)) w))
        as [_ [-> _]].
  - now rewrite Hm.
Qed.

(** C9, as the component has it.  Unmounting removes the live-feed
    handler; from then on a live-feed message changes nothing and no event
    changes [this.state] (React drops the state update of a fetch that
    settles later).  The continuation of a pending fetch is not cancelled,
    though: it leaves the location as it is or clears its query parameters,
    and it does clear them when a 'previous' fetch resolves with
    [has_more] false. *)
Theorem teardown_effects (q : Search) (evs : list Event) :
  let w := run (mount q) evs in
  (mounted w = true ->
   listeners (step w Unmount) = [] /\ mounted (step w Unmount) = false)
  /\ (mounted w = false ->
      (forall channel wsData, step w (Emit channel wsData) = w)
      /\ (forall ev, state (step w ev) = state w)
      /\ (forall i o r,
             search (step w (Settle i o r)) = search w
             \/ search (step w (Settle i o r))
                = search (clearQueryParams w))
      /\ (forall i qp d,
             nth_error (pending w) i = Some qp ->
             page qp = Some "previous" -> data.has_more d = false ->
             obtainQueryParams (step w (Settle i (Resolved d) false))
             = noQueryParams)).
Proof.
  intro w.
  pose proof (run_subscribed evs (mount q) (mount_subscribed q)) as Hs.
  fold w in Hs. unfold subscribed in Hs.
  split; intro Hm; rewrite Hm in Hs.
  - cbn [step]. rewrite Hm. simpl. now rewrite Hs.
  - assert (Hsettle : forall i qp o r,
               nth_error (pending w) i = Some qp ->
               step w (Settle i o r)
               = getDataSettled qp o r
                   (withPending (dropNth i (pending w)) w)).
    { intros i qp o r Hnth. cbn [step]. rewrite Hnth.
      apply handled_unmounted.
      now destruct (getDataSettled_frame qp o r
                      (withPending (dropNth i (pending w)) w))
        as [_ [-> _]]. }
    split; [|split; [|split]].
    + intros channel wsData. cbn [step]. unfold emit. now rewrite Hs.
    + intro ev. now apply step_unmounted_state.
    + intros i o r.
      destruct (nth_error (pending w) i) as [qp|] eqn:Hnth.
      * rewrite (Hsettle i qp o r Hnth). destruct o; handler_cases.
      * cbn [step]. rewrite Hnth. now left.
    + intros i qp d Hnth Hp Hmore.
      rewrite (Hsettle i qp _ _ Hnth). cbn [getDataSettled].
      unfold handleDataFetched. rewrite Hp, Hmore. simpl.
      destruct (data.transactions d); unfold obtainQueryParams;
        rewrite setState_search;
        apply (obtainQueryParams_clearQueryParams
                 (withPending (dropNth i (pending w)) w)).
Qed.

(** *** The query parameters of the location *)

Lemma searchGet_searchDelete_other (key key' : string) (q : Search) :
  key <> key' -> searchGet key (searchDelete key' q) = searchGet key q.
Proof.
  intro Hne. induction q as [|[k v] q IH]; simpl; [reflexivity|].
  destruct (k =? key') eqn:E'; simpl.
  - apply String.eqb_eq in E'. subst k.
    destruct (key' =? key) eqn:E; [|exact IH].
    apply String.eqb_eq in E. congruence.
  - destruct (k =? key); [reflexivity | exact IH].
Qed.

Lemma searchDelete_twice (key : string) (q : Search) :
  searchDelete key (searchDelete key q) = searchDelete key q.
Proof.
  induction q as [|[k v] q IH]; simpl; [reflexivity|].
  destruct (k =? key) eqn:E; simpl; [exact IH|].
  rewrite E. simpl. now f_equal.
Qed.

Lemma searchDelete_absent (key : string) (q : Search) :
  (forall kv, In kv q -> (fst kv =? key) = false) -> searchDelete key q = q.
Proof.
  induction q as [|kv q IH]; simpl; intro H; [reflexivity|].
  rewrite (H kv) by now left. simpl. f_equal.
  apply IH. intros kv' Hin. apply H. now right.
Qed.

Lemma searchDelete_comm (key key' : string) (q : Search) :
  searchDelete key (searchDelete key' q)
  = searchDelete key' (searchDelete key q).
Proof.
  induction q as [|[k v] q IH]; simpl; [reflexivity|].
  destruct (k =? key') eqn:E', (k =? key) eqn:E; simpl;
    rewrite ?E, ?E'; simpl; try exact IH.
  now f_equal.
Qed.

Lemma searchGet_searchSet_same (key value : string) (q : Search) :
  searchGet key (searchSet key value q) = Some value.
Proof.
  induction q as [|[k v] q IH]; simpl.
  - now rewrite String.eqb_refl.
  - destruct (k =? key) eqn:E; simpl.
    + now rewrite String.eqb_refl.
    + now rewrite E.
Qed.

Lemma searchGet_searchSet_other (key key' value : string) (q : Search) :
  key <> key' -> searchGet key (searchSet key' value q) = searchGet key q.
Proof.
  intro Hne.
  assert (Hneb : (key' =? key) = false) by (apply String.eqb_neq; congruence).
  induction q as [|[k v] q IH]; simpl.
  - now rewrite Hneb.
  - destruct (k =? key') eqn:E'; simpl.
    + apply String.eqb_eq in E'. subst k. rewrite Hneb.
      now apply searchGet_searchDelete_other.
    + destruct (k =? key); [reflexivity | exact IH].
Qed.

Lemma searchDelete_searchSet_same (key value : string) (q : Search) :
  searchDelete key (searchSet key value q) = searchDelete key q.
Proof.
  induction q as [|[k v] q IH]; simpl.
  - now rewrite String.eqb_refl.
  - destruct (k =? key) eqn:E; simpl.
    + rewrite String.eqb_refl. simpl. apply searchDelete_twice.
    + rewrite E. simpl. now f_equal.
Qed.

Lemma searchDelete_searchSet_other (key key' value : string) (q : Search) :
  key <> key' ->
  searchDelete key (searchSet key' value q)
  = searchSet key' value (searchDelete key q).
Proof.
  intro Hne.
  assert (Hneb : (key' =? key) = false) by (apply String.eqb_neq; congruence).
  induction q as [|[k v] q IH]; simpl.
  - now rewrite Hneb.
  - destruct (k =? key') eqn:E'; simpl.
    + apply String.eqb_eq in E'. subst k. rewrite Hneb. simpl.
      rewrite String.eqb_refl. f_equal. apply searchDelete_comm.
    + destruct (k =? key) eqn:E; simpl; [exact IH|].
      rewrite E'. now f_equal.
Qed.

(** X1. [clearQueryParams] deletes 'ts', 'hash' and 'page' and nothing
    else: every other key of the location reads as before, the component's
    state, its pending fetches and its registration are untouched, and
    clearing a second time changes nothing. *)
Theorem clearQueryParams_keeps_others (key : string) (w : World) :
  key <> "ts" -> key <> "hash" -> key <> "page" ->
  searchGet key (search (clearQueryParams w)) = searchGet key (search w)
  /\ clearQueryParams (clearQueryParams w) = clearQueryParams w
  /\ state (clearQueryParams w) = state w
  /\ pending (clearQueryParams w) = pending w
  /\ listeners (clearQueryParams w) = listeners w.
Proof.
  intros Hts Hhash Hpage. unfold clearQueryParams. simpl.
  split; [|split; [|repeat split]].
  - now rewrite !searchGet_searchDelete_other.
  - unfold withSearch. simpl. f_equal.
    set (c := searchDelete "page" (searchDelete "hash"
                                     (searchDelete "ts" (search w)))).
    assert (Hc : forall kv, In kv c ->
                   (fst kv =? "ts") = false /\ (fst kv =? "hash") = false
                   /\ (fst kv =? "page") = false).
    { intros kv Hin. unfold c, searchDelete in Hin.
      repeat (apply filter_In in Hin; destruct Hin as [Hin ?]).
      repeat split; now apply negb_true_iff. }
    rewrite (searchDelete_absent "ts" c) by (intros kv Hin; now apply Hc).
    rewrite (searchDelete_absent "hash" c) by (intros kv Hin; now apply Hc).
    apply searchDelete_absent. intros kv Hin. now apply Hc.
Qed.

Lemma obtainQueryParams_paginationUrl (ts hash page : string) (w : World) :
  obtainQueryParams (withSearch (paginationUrl ts hash page w) w)
  = mkQueryParams (Some ts) (Some hash) (Some page).
Proof.
  unfold obtainQueryParams, paginationUrl, withSearch. simpl. f_equal.
  - rewrite !searchGet_searchSet_other by discriminate.
    apply searchGet_searchSet_same.
  - rewrite searchGet_searchSet_other by discriminate.
    apply searchGet_searchSet_same.
  - apply searchGet_searchSet_same.
Qed.

(** X2. The query that [paginationUrl] builds reads back through
    [obtainQueryParams] as the cursor and direction it was given, whatever
    the location held before (also several entries of a key); the other keys
    of the location read as before; and clearing the query parameters of the
    link's location gives what clearing the present location gives. *)
Theorem paginationUrl_round_trip (ts hash page : string) (w : World) :
  obtainQueryParams (withSearch (paginationUrl ts hash page w) w)
  = mkQueryParams (Some ts) (Some hash) (Some page)
  /\ (forall key,
         key <> "ts" -> key <> "hash" -> key <> "page" ->
         searchGet key (paginationUrl ts hash page w)
         = searchGet key (search w))
  /\ clearQueryParams (withSearch (paginationUrl ts hash page w) w)
     = clearQueryParams w.
Proof.
  split; [apply obtainQueryParams_paginationUrl|].
  unfold paginationUrl, clearQueryParams, withSearch.
  simpl. split.
  - intros key Hts Hhash Hpage.
    now rewrite !searchGet_searchSet_other.
  - f_equal.
    rewrite !(searchDelete_searchSet_other "ts") by discriminate.
    rewrite searchDelete_searchSet_same.
    rewrite (searchDelete_searchSet_other "hash" "page") by discriminate.
    rewrite searchDelete_searchSet_same.
    now rewrite searchDelete_searchSet_same.
Qed.

(** *** The boundary cursors *)

Lemma run_cursorsMatch (evs : list Event) (w : World) :
  cursorsMatch (state w) -> cursorsMatch (state (run w evs)).
Proof.
  intro Hw.
  apply (run_invariant (fun w' => cursorsMatch (state w')) (fun _ => True));
    try assumption.
  - intros prevState w' _ Hw'.
    destruct (componentDidUpdate_cases prevState w') as [->|[_ [_ ->]]];
      [assumption|].
    unfold refetching, getData, setState.
    destruct (mounted w'); simpl; exact Hw'.
  - intros wsData w' Hw'. unfold handleWebsocket, updateListWs.
    destruct (strictEq _ _); [|assumption].
    destruct (negb _); [|assumption].
    destruct (shouldUpdateList wsData); [|assumption].
    destruct (helpers_updateListWs _ _ _) as [|t0 l'] eqn:E; [assumption|].
    unfold setState. destruct (mounted w'); [|assumption].
    unfold cursorsMatch. simpl. repeat split.
  - intros i qp o r w' _ Hw' _.
    destruct o as [d|e]; unfold getDataSettled;
      [destruct r|]; unfold handleFetchError, handleDataFetched.
    + unfold setState. destruct (mounted _); simpl; exact Hw'.
    + destruct (data.transactions d) as [|t0 l'] eqn:E;
        repeat match goal with
               | |- context [if ?b then _ else _] => destruct b
               end;
        unfold setState, clearQueryParams; simpl;
        destruct (mounted w'); simpl; try exact Hw';
        unfold cursorsMatch; simpl; repeat split.
    + unfold setState. destruct (mounted _); simpl; exact Hw'.
  - intros q w' Hw'. exact Hw'.
  - intros w' _ Hw'. exact Hw'.
  - now apply Forall_forall.
Qed.

(** X3. In every world reached after mounting, the boundary cursors are
    those of the window: [firstHash] and [firstTimestamp] are the id and the
    timestamp of its first record, [lastHash] and [lastTimestamp] those of
    its last record, and all four are [null] when the window is empty.  So
    whenever [render] shows the pagination, its links are built from cursors
    that are not [null]. *)
Theorem cursors_follow_window (q : Search) (evs : list Event) :
  let s := state (run (mount q) evs) in
  cursorsMatch s
  /\ (paginationShown s = true ->
      firstHash s <> None /\ firstTimestamp s <> None
      /\ lastHash s <> None /\ lastTimestamp s <> None).
Proof.
  intro s.
  assert (H : cursorsMatch s).
  { apply run_cursorsMatch. unfold cursorsMatch. simpl. auto. }
  split; [exact H|].
  unfold paginationShown, cursorsMatch in *.
  destruct (transactions s) as [|t0 l]; simpl; [discriminate|].
  intros _. destruct H as [-> [-> [-> ->]]]. repeat split; discriminate.
Qed.

(** *** The decision of [componentDidUpdate] *)

Lemma isEqual_spec (a b : QueryParams) : isEqual a b = true <-> a = b.
Proof.
  unfold isEqual. rewrite !andb_true_iff, !strictEq_spec.
  destruct a, b; simpl. split.
  - intros [[-> ->] ->]. reflexivity.
  - intro H. inversion H. auto.
Qed.

Lemma componentDidUpdate_not_due (prevState : State) (w : World) :
  fetchDue w = false -> componentDidUpdate prevState w = w.
Proof.
  intro Hd.
  destruct (componentDidUpdate_cases prevState w) as [H|[_ [Hd' _]]];
    [exact H | congruence].
Qed.

Lemma lifecycle_refetching (prevState : State) (w : World) :
  mounted w = true ->
  lifecycle 1 prevState w (refetching w) = refetching w.
Proof.
  intro Hm. rewrite lifecycle_S.
  destruct (mounted (refetching w) && rendered w (refetching w));
    [|reflexivity].
  simpl. apply componentDidUpdate_loading. now apply refetching_loading.
Qed.

Lemma step_Render (w : World) (q : Search) :
  step w (Render q)
  = if mounted w && negb (loading (state w)) && fetchDue (withSearch q w)
    then refetching (withSearch q w)
    else withSearch q w.
Proof.
  cbn [step]. destruct (mounted w) eqn:Hm; [|reflexivity].
  set (w1 := withSearch q w).
  assert (Hm1 : mounted w1 = true) by exact Hm.
  change (loading (state w)) with (loading (state w1)).
  destruct (loading (state w1)) eqn:Hl; cbn [andb negb].
  - rewrite componentDidUpdate_loading by assumption.
    apply lifecycle_same.
  - destruct (fetchDue w1) eqn:Hd.
    + rewrite componentDidUpdate_same_state by assumption.
      now apply lifecycle_refetching.
    + rewrite componentDidUpdate_not_due by assumption.
      apply lifecycle_same.
Qed.

(** X4. What a rendering at location [q] does.  The mounted component that
    is not loading issues one fetch, for the parameters of [q], exactly when
    they differ from those of its state and either name a hash or the window
    is not the most recent page; it then is loading with the error cleared.
    In every other case only the location changes.  In particular, when the
    parameters are cleared while the window is the most recent page, no
    fetch is issued. *)
Theorem render_decision (w : World) (q : Search) :
  step w (Render q)
  = (if mounted w && negb (loading (state w)) && fetchDue (withSearch q w)
     then refetching (withSearch q w)
     else withSearch q w)
  /\ (truthy (searchGet "hash" q) = false -> hasBefore (state w) = false ->
      step w (Render q) = withSearch q w)
  /\ (mounted w = true ->
      pending (refetching (withSearch q w))
      = (pending w ++ [obtainQueryParams (withSearch q w)])%list
      /\ loading (state (refetching (withSearch q w))) = true
      /\ error (state (refetching (withSearch q w))) = JsNull).
Proof.
  pose proof (step_Render w q) as Heq.
  split; [exact Heq|]. split.
  - intros Hh Hb. rewrite Heq.
    assert (Hd : fetchDue (withSearch q w) = false).
    { unfold fetchDue. simpl. rewrite Hh, Hb. apply andb_false_r. }
    rewrite Hd. now rewrite andb_false_r.
  - intro Hm. unfold refetching, getData, setState. simpl. rewrite Hm.
    simpl. repeat split.
Qed.

Lemma handleDataFetched_search (d : data.t) (qp : QueryParams) (w : World) :
  search (handleDataFetched d qp w)
  = if strictEq (page qp) (Some "previous") && negb (data.has_more d)
    then search (clearQueryParams w)
    else search w.
Proof.
  unfold handleDataFetched.
  destruct (data.transactions d);
    destruct (strictEq (page qp) (Some "previous"));
    destruct (strictEq (page qp) (Some "next"));
    destruct (data.has_more d); simpl; now rewrite setState_search.
Qed.

Lemma step_Settle_success (w : World) (i : nat) (qp : QueryParams)
      (d : data.t) :
  mounted w = true ->
  nth_error (pending w) i = Some qp ->
  obtainQueryParams w = qp ->
  step w (Settle i (Resolved d) false)
  = handleDataFetched d qp (withPending (dropNth i (pending w)) w).
Proof.
  intros Hm Hnth Hq.
  set (w0 := withPending (dropNth i (pending w)) w).
  assert (Hm0 : mounted w0 = true) by exact Hm.
  destruct (handleDataFetched_state d qp w0 Hm0) as [Hl [_ [Ht Hqp]]].
  assert (Hd : fetchDue (handleDataFetched d qp w0) = false).
  { unfold fetchDue. rewrite Hqp.
    destruct (strictEq (page qp) (Some "previous") && negb (data.has_more d))
      eqn:Hc.
    - apply andb_true_iff in Hc. destruct Hc as [Hp Hmore].
      assert (Ho : obtainQueryParams (handleDataFetched d qp w0)
                   = noQueryParams).
      { unfold handleDataFetched. rewrite Hp, Hmore.
        destruct (data.transactions d); unfold obtainQueryParams;
          rewrite setState_search;
          apply (obtainQueryParams_clearQueryParams w0). }
      assert (Hb : hasBefore (state (handleDataFetched d qp w0)) = false).
      { apply negb_true_iff in Hmore. unfold handleDataFetched.
        rewrite Hp, Hmore.
        destruct (data.transactions d); now rewrite setState_state. }
      rewrite Ho, Hb. simpl. apply andb_false_r.
    - assert (Ho : obtainQueryParams (handleDataFetched d qp w0) = qp).
      { unfold obtainQueryParams.
        rewrite handleDataFetched_search, Hc. exact Hq. }
      rewrite Ho.
      replace (isEqual qp qp) with true
        by (symmetry; now apply isEqual_spec).
      reflexivity. }
  assert (Hstep : step w (Settle i (Resolved d) false)
                  = handleDataFetched d qp w0).
  { cbn [step]. rewrite Hnth. unfold handled. cbn [getDataSettled].
    fold w0. rewrite (lifecycle_S 1).
    destruct (mounted _ && rendered _ _); [|reflexivity].
    rewrite componentDidUpdate_not_due by exact Hd.
    apply lifecycle_same. }
  exact Hstep.
Qed.

(** X5. A fetch that succeeds while the location still holds the
    parameters it was issued for is not followed by another fetch: the
    update cycle after [handleDataFetched] changes nothing, also when the
    handler has cleared the parameters of the location on the return to the
    most recent page.  The window is then the fetched page, the state holds
    the requested parameters, and the component is not loading. *)
Theorem fetch_success_settles (w : World) (i : nat) (qp : QueryParams)
        (d : data.t) :
  mounted w = true ->
  nth_error (pending w) i = Some qp ->
  obtainQueryParams w = qp ->
  step w (Settle i (Resolved d) false)
  = handleDataFetched d qp (withPending (dropNth i (pending w)) w)
  /\ transactions (state (step w (Settle i (Resolved d) false)))
     = data.transactions d
  /\ queryParams (state (step w (Settle i (Resolved d) false))) = qp
  /\ loading (state (step w (Settle i (Resolved d) false))) = false
  /\ pending (step w (Settle i (Resolved d) false)) = dropNth i (pending w).
Proof.
  intros Hm Hnth Hq.
  set (w0 := withPending (dropNth i (pending w)) w).
  assert (Hm0 : mounted w0 = true) by exact Hm.
  destruct (handleDataFetched_state d qp w0 Hm0) as [Hl [_ [Ht Hqp]]].
  rewrite (step_Settle_success w i qp d Hm Hnth Hq). fold w0.
  repeat split; try assumption.
  exact (proj1 (getDataSettled_frame qp (Resolved d) false w0)).
Qed.

(** *** Loading and the pending fetch *)

Lemma getDataSettled_loading (qp : QueryParams) (o : Settlement) (r : bool)
      (w : World) :
  mounted w = true -> loading (state (getDataSettled qp o r w)) = false.
Proof.
  intro Hm. destruct o as [d|e]; cbn [getDataSettled]; [destruct r|].
  - unfold handleFetchError. now rewrite setState_state.
  - now destruct (handleDataFetched_state d qp w Hm) as [-> _].
  - unfold handleFetchError. now rewrite setState_state.
Qed.

Lemma run_idleWhenSettled (evs : list Event) (w : World) :
  oneFetch w -> idleWhenSettled w ->
  oneFetch (run w evs) /\ idleWhenSettled (run w evs).
Proof.
  intros Ho Hi.
  apply (run_invariant (fun w' => oneFetch w' /\ idleWhenSettled w')
                       (fun _ => True)); try (now split).
  - intros prevState w' Hm [Ho' Hi'].
    split; [now apply componentDidUpdate_oneFetch|].
    destruct (componentDidUpdate_cases prevState w') as [->|[_ [_ ->]]];
      [assumption|].
    unfold idleWhenSettled, refetching, getData, setState. rewrite Hm. simpl.
    split; [|reflexivity].
    intros _ Hnil. now destruct (pending w').
  - intros wsData w' [[Hlen Hp] [Hidle Herr]].
    unfold oneFetch, idleWhenSettled.
    destruct (handleWebsocket_frame wsData w')
      as [-> [-> [_ [_ [-> ->]]]]].
    split; split; assumption.
  - intros i qp o r w' _ [[Hlen Hp] [Hidle Herr]] Hnth.
    set (w0 := withPending (dropNth i (pending w')) w').
    assert (Hp0 : pending (getDataSettled qp o r w0) = []).
    { destruct (getDataSettled_frame qp o r w0) as [-> _].
      simpl. now apply (dropNth_single i (pending w') qp). }
    unfold oneFetch, idleWhenSettled. rewrite Hp0. simpl.
    split; [split; [lia | congruence]|].
    destruct (mounted w') eqn:Hm.
    + assert (Hl : loading (state (getDataSettled qp o r w0)) = false)
        by now apply getDataSettled_loading.
      rewrite Hl. split; [reflexivity | discriminate].
    + rewrite getDataSettled_unmounted by exact Hm.
      destruct (getDataSettled_frame qp o r w0) as [_ [-> _]].
      simpl. rewrite Hm. split; [discriminate | exact Herr].
  - intros w' Hm [Ho' [_ Herr]]. split; [exact Ho'|].
    split; [discriminate | exact Herr].
  - now apply Forall_forall.
Qed.

(** X6. In every world reached after mounting, the mounted component is
    loading exactly while a fetch is pending, and a loading state carries no
    error.  While a fetch is pending both pagination items have the class
    [disabled]. *)
Theorem loading_iff_pending (q : Search) (evs : list Event) :
  let w := run (mount q) evs in
  (mounted w = true -> (loading (state w) = true <-> pending w <> []))
  /\ (loading (state w) = true -> error (state w) = JsNull)
  /\ (pending w <> [] ->
      previousDisabled (state w) = true /\ nextDisabled (state w) = true).
Proof.
  intro w.
  destruct (run_idleWhenSettled evs (mount q)) as [[_ Hp] [Hidle Herr]];
    [apply mount_oneFetch | split; simpl; [discriminate|reflexivity] |].
  fold w in Hp, Hidle, Herr.
  split; [|split; [exact Herr|]].
  - intro Hm. split.
    + intros Hl Hnil. rewrite (Hidle Hm Hnil) in Hl. discriminate.
    + intro Hne. now apply Hp.
  - intro Hne. destruct (Hp Hne) as [Hl _].
    unfold previousDisabled, nextDisabled. rewrite Hl.
    now rewrite !orb_true_r.
Qed.

(** *** What a live-feed message keeps *)

Lemma handleWebsocket_flags (wsData : tx.t) (w : World) :
  hasBefore (state (handleWebsocket wsData w)) = hasBefore (state w)
  /\ queryParams (state (handleWebsocket wsData w)) = queryParams (state w)
  /\ (hasAfter (state w) = true ->
      hasAfter (state (handleWebsocket wsData w)) = true).
Proof.
  repeat split; try intros Ha; handler_cases. simpl. now rewrite Ha.
Qed.

Lemma componentDidUpdate_queryParams (prevState : State) (w : World) :
  queryParams (state (componentDidUpdate prevState w))
  = queryParams (state w).
Proof.
  destruct (componentDidUpdate_cases prevState w) as [->|[_ [_ ->]]];
    [reflexivity|].
  handler_cases.
Qed.

Lemma fetchDue_frame (w w' : World) :
  hasBefore (state w') = hasBefore (state w) ->
  queryParams (state w') = queryParams (state w) ->
  search w' = search w ->
  fetchDue w' = fetchDue w.
Proof.
  intros Hb Hq Hs. unfold fetchDue, obtainQueryParams.
  now rewrite Hb, Hq, Hs.
Qed.

Lemma handled_handleWebsocket_liveFrame (wsData : tx.t) (w : World) :
  liveFrame w (handled (handleWebsocket wsData) w).
Proof.
  destruct (handleWebsocket_frame wsData w)
    as [Hp [Hm [Hli [Hs [Hl He]]]]].
  destruct (handleWebsocket_flags wsData w) as [Hb [Hq Ha]].
  set (h := handleWebsocket wsData w) in *.
  assert (Hkeep :
            (fun w' =>
               hasBefore (state w') = hasBefore (state w)
               /\ queryParams (state w') = queryParams (state w)
               /\ search w' = search w
               /\ mounted w' = mounted w
               /\ listeners w' = listeners w
               /\ (hasAfter (state w) = true -> hasAfter (state w') = true))
              (handled (handleWebsocket wsData) w)).
  { unfold handled. apply lifecycle_invariant.
    - intros prevState w' _ [Hb' [Hq' [Hs' [Hm' [Hli' Ha']]]]].
      rewrite componentDidUpdate_mounted, componentDidUpdate_queryParams.
      destruct (componentDidUpdate_frame prevState w')
        as [-> [-> [_ [-> ->]]]].
      repeat split; assumption.
    - fold h. repeat split; assumption. }
  simpl in Hkeep.
  destruct Hkeep as [Hb' [Hq' [Hs' [Hm' [Hli' Ha']]]]].
  unfold liveFrame. do 6 (split; [assumption|]).
  intro Hd.
  assert (Hd' : fetchDue h = false)
    by (rewrite (fetchDue_frame w h Hb Hq Hs); exact Hd).
  assert (Hh : handled (handleWebsocket wsData) w = h).
  { unfold handled. fold h. rewrite (lifecycle_S 1).
    destruct (mounted h && rendered w h); [|reflexivity].
    rewrite componentDidUpdate_not_due by exact Hd'.
    apply lifecycle_same. }
  rewrite Hh. repeat split; assumption.
Qed.

Lemma liveFrame_trans (a b c : World) :
  liveFrame a b -> liveFrame b c -> liveFrame a c.
Proof.
  intros [Hb [Hq [Hs [Hm [Hl [Ha Hd]]]]]] [Hb' [Hq' [Hs' [Hm' [Hl' [Ha' Hd']]]]]].
  unfold liveFrame. do 5 (split; [congruence|]).
  split; [tauto|].
  intro Hdue. destruct (Hd Hdue) as [Hp1 [Hl1 He1]].
  assert (Hdue' : fetchDue b = false)
    by (rewrite (fetchDue_frame a b Hb Hq Hs); exact Hdue).
  destruct (Hd' Hdue') as [Hp2 [Hl2 He2]].
  repeat split; congruence.
Qed.

(** X7. The delivery of a live-feed message, on any channel and whatever
    the handler does with it, never changes [hasBefore], the query
    parameters of the state, the location, or the registration of the
    handler, and never turns [hasAfter] off.  Unless a fetch was already due
    (new parameters in the location, not yet fetched), it issues no fetch
    and leaves [loading] and [error] alone. *)
Theorem live_message_frame (w : World) (channel : string) (wsData : tx.t) :
  liveFrame w (step w (Emit channel wsData)).
Proof.
  cbn [step]. unfold emit.
  assert (Hfold : forall l w',
             liveFrame w w' ->
             liveFrame w (fold_left
                            (fun w'' c =>
                               if c =? channel
                               then handled (handleWebsocket wsData) w''
                               else w'') l w')).
  { induction l as [|c l IH]; intros w' Hw'; simpl; [exact Hw'|].
    apply IH. destruct (c =? channel); [|exact Hw'].
    apply (liveFrame_trans w w'); [exact Hw'|].
    apply handled_handleWebsocket_liveFrame. }
  apply Hfold. unfold liveFrame. repeat split; auto.
Qed.

(** X8. The component hears the 'network' channel only, and once: in every
    world reached after mounting, a message emitted on another channel
    changes nothing, and a message on 'network' is handled exactly once by
    the mounted component. *)
Theorem live_feed_channel (q : Search) (evs : list Event) (channel : string)
        (wsData : tx.t) :
  let w := run (mount q) evs in
  (channel <> "network" -> step w (Emit channel wsData) = w)
  /\ (mounted w = true ->
      step w (Emit "network" wsData) = handled (handleWebsocket wsData) w).
Proof.
  intro w.
  pose proof (run_subscribed evs (mount q) (mount_subscribed q)) as Hs.
  fold w in Hs. unfold subscribed in Hs.
  split.
  - intro Hne. cbn [step]. unfold emit. rewrite Hs.
    destruct (mounted w); cbn [fold_left]; [|reflexivity].
    replace ("network" =? channel) with false; [reflexivity|].
    symmetry. apply String.eqb_neq. congruence.
  - intro Hm. cbn [step]. unfold emit. rewrite Hs, Hm. cbn [fold_left].
    now rewrite String.eqb_refl.
Qed.

(** *** What a fetch result keeps, and a followed link *)

Lemma strictEq_differ (a b : JsString) : a <> b -> strictEq a b = false.
Proof.
  intro Hne. destruct (strictEq a b) eqn:E; [|reflexivity].
  apply strictEq_spec in E. contradiction.
Qed.

(** X9. [handleDataFetched] writes the window, the cursors, the flags, the
    query parameters and [loading], and nothing else: [error] is kept as it
    is (a success does not itself clear an error), the pending fetches and
    the registration are untouched, and the location is only written on a
    'previous' fetch with [has_more] false.  A direction that is neither
    'previous' nor 'next' (absent, or any other string) is handled as the
    first load: [hasBefore] is false. *)
Theorem handleDataFetched_frame (d : data.t) (qp : QueryParams) (w : World) :
  mounted w = true ->
  error (state (handleDataFetched d qp w)) = error (state w)
  /\ pending (handleDataFetched d qp w) = pending w
  /\ listeners (handleDataFetched d qp w) = listeners w
  /\ (strictEq (page qp) (Some "previous") && negb (data.has_more d) = false ->
      search (handleDataFetched d qp w) = search w)
  /\ (page qp <> Some "previous" -> page qp <> Some "next" ->
      hasBefore (state (handleDataFetched d qp w)) = false
      /\ hasAfter (state (handleDataFetched d qp w)) = data.has_more d).
Proof.
  intro Hm.
  destruct (handleDataFetched_state d qp w Hm) as [_ [He _]].
  destruct (getDataSettled_frame qp (Resolved d) false w) as [Hp [_ Hl]].
  cbn [getDataSettled] in Hp, Hl.
  split; [exact He|]. split; [exact Hp|]. split; [exact Hl|]. split.
  - intro Hc. now rewrite handleDataFetched_search, Hc.
  - intros Hprev Hnext.
    assert (Ep : strictEq (page qp) (Some "previous") = false)
      by now apply strictEq_differ.
    assert (En : strictEq (page qp) (Some "next") = false)
      by now apply strictEq_differ.
    unfold handleDataFetched. rewrite Ep, En.
    destruct (data.transactions d); rewrite setState_state by assumption;
      split; reflexivity.
Qed.

(** X10. Following a pagination link.  The mounted component is settled
    (not loading, nothing pending) and renders at the location of
    [paginationUrl(ts, hash, page)], whose cursor has a non-empty hash and
    differs from the parameters of the state.  Then exactly one fetch is
    issued, for that cursor and direction, the component is loading with the
    error cleared and the window still shown.  When that fetch resolves, the
    window is the fetched page, the state holds the link's parameters, the
    component is settled again and no further fetch is issued. *)
Theorem follow_link (w : World) (ts hash page : string) (d : data.t) :
  mounted w = true -> loading (state w) = false -> pending w = [] ->
  hash <> "" ->
  queryParams (state w) <> mkQueryParams (Some ts) (Some hash) (Some page) ->
  let qp := mkQueryParams (Some ts) (Some hash) (Some page) in
  let w1 := step w (Render (paginationUrl ts hash page w)) in
  let w2 := step w1 (Settle 0 (Resolved d) false) in
  (pending w1 = [qp] /\ loading (state w1) = true
   /\ error (state w1) = JsNull
   /\ transactions (state w1) = transactions (state w))
  /\ (w2 = handleDataFetched d qp (withPending [] w1)
      /\ transactions (state w2) = data.transactions d
      /\ queryParams (state w2) = qp
      /\ loading (state w2) = false
      /\ error (state w2) = JsNull
      /\ pending w2 = []).
Proof.
  intros Hm Hl Hp Hh Hne qp w1 w2.
  set (w0 := withSearch (paginationUrl ts hash page w) w).
  assert (Hq0 : obtainQueryParams w0 = qp)
    by apply obtainQueryParams_paginationUrl.
  assert (Hd : fetchDue w0 = true).
  { unfold fetchDue. rewrite Hq0.
    change (queryParams (state w0)) with (queryParams (state w)).
    destruct (isEqual (queryParams (state w)) qp) eqn:E.
    - apply isEqual_spec in E. contradiction.
    - simpl. destruct (hash =? "") eqn:Eh; [|reflexivity].
      apply String.eqb_eq in Eh. contradiction. }
  assert (Hw1 : w1 = refetching w0).
  { unfold w1. rewrite step_Render. fold w0. now rewrite Hm, Hl, Hd. }
  assert (Hm0 : mounted w0 = true) by exact Hm.
  assert (Hp1 : pending w1 = [qp]).
  { rewrite Hw1. unfold refetching, getData, setState. rewrite Hm0. simpl.
    rewrite Hp, Hq0. reflexivity. }
  assert (Hs1 : state w1 = patchLoadingError true JsNull (state w)).
  { rewrite Hw1. unfold refetching, getData, setState. now rewrite Hm0. }
  assert (Hm1 : mounted w1 = true).
  { rewrite Hw1. unfold refetching, getData, setState. now rewrite Hm0. }
  assert (Hq1 : obtainQueryParams w1 = qp).
  { rewrite <- Hq0, Hw1. unfold obtainQueryParams, refetching, getData.
    simpl. now rewrite setState_search. }
  split; [rewrite Hs1; repeat split; assumption|].
  assert (Hnth : nth_error (pending w1) 0 = Some qp) by now rewrite Hp1.
  assert (Hw2 : w2 = handleDataFetched d qp (withPending [] w1)).
  { unfold w2. rewrite (step_Settle_success w1 0 qp d Hm1 Hnth Hq1).
    now rewrite Hp1. }
  assert (Hm1' : mounted (withPending [] w1) = true) by exact Hm1.
  destruct (handleDataFetched_state d qp _ Hm1') as [Hl2 [He2 [Ht2 Hq2]]].
  rewrite <- Hw2 in Hl2, He2, Ht2, Hq2.
  split; [exact Hw2|]. split; [exact Ht2|]. split; [exact Hq2|].
  split; [exact Hl2|]. split.
  - rewrite He2. simpl. now rewrite Hs1.
  - rewrite Hw2.
    exact (proj1 (getDataSettled_frame qp (Resolved d) false
                    (withPending [] w1))).
Qed.

(** *** A re-fetch clears the error *)

(** C7. A fetch that succeeds leaves no error behind.  In every world
    reached after mounting: when the mounted component, not loading (in
    Error, say), finds a fetch due at a rendering, the fetch is issued with
    [error] set back to [null]; a fetch is only ever pending with [error]
    null; so when a pending fetch of the mounted component resolves and
    [handleDataFetched] sets the state, that state has status Idle and
    [error] null, and [error] is still null after the update cycle that
    follows. *)
Theorem fetch_success_clears_error (q : Search) (evs : list Event)
        (i : nat) (qp : QueryParams) (d : data.t) :
  let w := run (mount q) evs in
  (forall q',
      mounted w = true -> loading (state w) = false ->
      fetchDue (withSearch q' w) = true ->
      error (state (step w (Render q'))) = JsNull
      /\ loading (state (step w (Render q'))) = true
      /\ pending (step w (Render q')) = [obtainQueryParams (withSearch q' w)])
  /\ (pending w <> [] -> error (state w) = JsNull)
  /\ (mounted w = true -> nth_error (pending w) i = Some qp ->
      let fetched :=
        handleDataFetched d qp (withPending (dropNth i (pending w)) w) in
      status (state fetched) = Idle
      /\ error (state fetched) = JsNull
      /\ error (state (step w (Settle i (Resolved d) false))) = JsNull).
Proof.
  intro w.
  destruct (run_oneFetch evs (mount q) (mount_oneFetch q)) as [_ Hp].
  fold w in Hp.
  split; [|split; [intro Hne; now apply Hp|]].
  - intros q' Hm Hl Hd. rewrite step_Render, Hm, Hl, Hd. simpl.
    assert (Hnil : pending w = []).
    { destruct (pending w) eqn:E; [reflexivity|].
      destruct Hp as [Hp _]; [discriminate | congruence]. }
    unfold refetching, getData, setState. simpl. rewrite Hm. simpl.
    rewrite Hnil. repeat split.
  - intros Hm Hnth fetched.
    destruct Hp as [_ He]; [intro E; rewrite E in Hnth; now destruct i|].
    assert (Hm0 : mounted (withPending (dropNth i (pending w)) w) = true)
      by exact Hm.
    destruct (handleDataFetched_state d qp _ Hm0) as [Hl [He' _]].
    fold fetched in Hl, He'. simpl in He'. rewrite He in He'.
    split; [|split]; [|assumption|].
    + unfold status. now rewrite Hl, He'.
    + cbn [step]. rewrite Hnth. unfold handled.
      apply (lifecycle_invariant (fun w' => error (state w') = JsNull));
        [|exact He'].
      intros prevState w' Hm' He''. now apply componentDidUpdate_no_error.
Qed.

End Transactions.

(** ** The properties on sample data *)

(** [handleDataFetched_flags] on a 'previous' fetch that reaches the most
    recent page. *)
Lemma handleDataFetched_flags_witness :
  mounted (mount previousSearch) = true
  /\ hasAfter (state (handleDataFetched lastPage previousParams
                                        (mount previousSearch))) = true
  /\ hasBefore (state (handleDataFetched lastPage previousParams
                                         (mount previousSearch))) = false
  /\ obtainQueryParams (handleDataFetched lastPage previousParams
                                          (mount previousSearch))
     = noQueryParams.
Proof.
  split; [reflexivity|].
  destruct (handleDataFetched_flags lastPage previousParams
              (mount previousSearch) eq_refl) as [_ [H _]].
  destruct (H eq_refl) as [Ha [Hb Hc]].
  split; [exact Ha|]. split; [exact Hb|]. exact (Hc eq_refl).
Defined.



(** [updateListWs_paginated_back] on the window of a 'next' page. *)
Lemma updateListWs_paginated_back_witness :
  hasBefore (state (handleDataFetched fullPage nextParams (mount nextSearch)))
  = true
  /\ step 2 acceptAll
          (handleDataFetched fullPage nextParams (mount nextSearch))
          (Emit "network" liveTx)
     = handleDataFetched fullPage nextParams (mount nextSearch).
Proof.
  split; [reflexivity|].
  exact (proj2 (proj2 (updateListWs_paginated_back 2 acceptAll
                         (handleDataFetched fullPage nextParams
                                            (mount nextSearch))
                         liveTx eq_refl)) "network").
Defined.

(** [handleWebsocket_other_type] on a message of another type. *)
Lemma handleWebsocket_other_type_witness :
  tx.type otherMsg <> Some "network:new_tx_accepted"
  /\ step 2 acceptAll (mount []) (Emit "network" otherMsg) = mount [].
Proof.
  assert (H : tx.type otherMsg <> Some "network:new_tx_accepted")
    by (simpl; discriminate).
  split; [exact H|].
  exact (proj2 (handleWebsocket_other_type 2 acceptAll (mount []) otherMsg H)).
Defined.

(** [updateListWs_hasAfter] on a full window that had nothing after it. *)
Lemma updateListWs_hasAfter_witness :
  mounted (handleDataFetched lastPage noQueryParams (mount [])) = true
  /\ hasBefore (state (handleDataFetched lastPage noQueryParams (mount [])))
     = false
  /\ acceptAll liveTx = true
  /\ hasAfter (state (handleDataFetched lastPage noQueryParams (mount [])))
     = false
  /\ hasAfter (state (updateListWs 2 acceptAll liveTx
                        (handleDataFetched lastPage noQueryParams
                                           (mount []))))
     = true.
Proof.
  repeat (split; [reflexivity|]).
  apply (proj1 (updateListWs_hasAfter 2 acceptAll liveTx
                  (handleDataFetched lastPage noQueryParams (mount []))
                  eq_refl eq_refl eq_refl)).
  right. reflexivity.
Defined.

(** [window_within_page_size] on a full page followed by a live record. *)
Lemma window_within_page_size_witness :
  (0 < 2)%nat
  /\ Forall (pageWithin 2)
            [Settle 0 (Resolved fullPage) false; Emit "network" liveTx]
  /\ (List.length
        (transactions
           (state (run 2 acceptAll (mount [])
                       [Settle 0 (Resolved fullPage) false;
                        Emit "network" liveTx]))) <= 2)%nat.
Proof.
  assert (Hpos : (0 < 2)%nat) by lia.
  assert (Hok : Forall (pageWithin 2)
                       [Settle 0 (Resolved fullPage) false;
                        Emit "network" liveTx])
    by (repeat constructor; simpl; lia).
  split; [exact Hpos|]. split; [exact Hok|].
  exact (window_within_page_size 2 acceptAll [] _ Hpos Hok).
Defined.

(** [fetch_success_clears_error] on a 'next' fetch that fails, is issued
    again by the next rendering and then succeeds: the error recorded by the
    failure is cleared when the fetch is issued again, and the success
    leaves the state Idle. *)
Lemma fetch_success_clears_error_witness :
  let failed := run 2 acceptAll (mount [])
                    [Settle 0 (Resolved fullPage) false; Render nextSearch;
                     Settle 0 (Rejected (JsStr "boom")) false] in
  let again := run 2 acceptAll (mount [])
                   [Settle 0 (Resolved fullPage) false; Render nextSearch;
                    Settle 0 (Rejected (JsStr "boom")) false;
                    Render nextSearch] in
  (status (state failed) = Error /\ error (state failed) = JsStr "boom")
  /\ (mounted failed = true /\ loading (state failed) = false
      /\ fetchDue (withSearch nextSearch failed) = true)
  /\ error (state (step 2 acceptAll failed (Render nextSearch))) = JsNull
  /\ (mounted again = true
      /\ nth_error (pending again) 0 = Some nextParams)
  /\ status (state (handleDataFetched lastPage nextParams
                                      (withPending [] again))) = Idle
  /\ error (state (step 2 acceptAll again
                         (Settle 0 (Resolved lastPage) false))) = JsNull.
Proof.
  intros failed again.
  destruct (fetch_success_clears_error 2 acceptAll []
              [Settle 0 (Resolved fullPage) false; Render nextSearch;
               Settle 0 (Rejected (JsStr "boom")) false]
              0 nextParams lastPage) as [Hissue _].
  destruct (fetch_success_clears_error 2 acceptAll []
              [Settle 0 (Resolved fullPage) false; Render nextSearch;
               Settle 0 (Rejected (JsStr "boom")) false; Render nextSearch]
              0 nextParams lastPage) as [_ [_ Hsuccess]].
  destruct (Hsuccess eq_refl eq_refl) as [Hidle [_ Hafter]].
  split; [split; reflexivity|].
  split; [repeat split; reflexivity|].
  split; [exact (proj1 (Hissue nextSearch eq_refl eq_refl eq_refl))|].
  split; [split; reflexivity|].
  split; [exact Hidle | exact Hafter].
Defined.

(** [live_merge_idempotent] on a record delivered twice. *)
Lemma live_merge_idempotent_witness :
  In (tx.tx_id rec2) (map tx.tx_id [rec1; rec2])
  /\ helpers_updateListWs [rec1; rec2] rec2 2 = [rec1; rec2]
  /\ helpers_updateListWs (helpers_updateListWs [rec1; rec2] liveTx 2)
                          liveTx 2
     = [liveTx; rec1].
Proof.
  assert (Hin : In (tx.tx_id rec2) (map tx.tx_id [rec1; rec2]))
    by (simpl; auto).
  split; [exact Hin|]. split.
  - exact (proj1 (live_merge_idempotent 2 acceptAll [rec1; rec2] rec2 2
                    (mount [])) Hin).
  - exact (proj1 (proj2 (live_merge_idempotent 2 acceptAll [rec1; rec2]
                           liveTx 2 (mount [])))).
Defined.



(** [teardown_effects] on a component unmounted during its first fetch. *)
Lemma teardown_effects_witness :
  mounted (run 2 acceptAll (mount previousSearch) []) = true
  /\ listeners (step 2 acceptAll (run 2 acceptAll (mount previousSearch) [])
                     Unmount) = []
  /\ mounted (run 2 acceptAll (mount previousSearch) [Unmount]) = false
  /\ state (step 2 acceptAll
                 (run 2 acceptAll (mount previousSearch) [Unmount])
                 (Settle 0 (Resolved lastPage) false))
     = state (run 2 acceptAll (mount previousSearch) [Unmount])
  /\ obtainQueryParams
       (step 2 acceptAll (run 2 acceptAll (mount previousSearch) [Unmount])
             (Settle 0 (Resolved lastPage) false))
     = noQueryParams.
Proof.
  destruct (teardown_effects 2 acceptAll previousSearch []) as [Hmounted _].
  destruct (teardown_effects 2 acceptAll previousSearch [Unmount])
    as [_ Hunmounted].
  destruct (Hunmounted eq_refl) as [_ [Hstate [_ Hcleared]]].
  split; [reflexivity|].
  split; [exact (proj1 (Hmounted eq_refl))|].
  split; [reflexivity|].
  split; [exact (Hstate (Settle 0 (Resolved lastPage) false))|].
  exact (Hcleared 0 previousParams lastPage eq_refl eq_refl eq_refl).
Defined.

(** C9 does not hold as worded.  A component opened on a 'previous' link is
    unmounted while its fetch is pending; the fetch then resolves with
    [has_more] false.  The continuation is no no-op: it clears the query
    parameters of the location, which held the cursor before. *)
Lemma teardown_counterexample :
  let w := run 2 acceptAll (mount previousSearch) [Unmount] in
  let w' := step 2 acceptAll w (Settle 0 (Resolved lastPage) false) in
  mounted w = false
  /\ pending w = [previousParams]
  /\ obtainQueryParams w = previousParams
  /\ obtainQueryParams w' = noQueryParams
  /\ search w' <> search w
  /\ w' <> w.
Proof.
  vm_compute. repeat split; discriminate.
Qed.

(** [clearQueryParams_keeps_others] on a location with a parameter of its
    own beside the cursor. *)
Lemma clearQueryParams_keeps_others_witness :
  "filter" <> "ts" /\ "filter" <> "hash" /\ "filter" <> "page"
  /\ searchGet "filter"
       (search (clearQueryParams
                  (withSearch (("filter", "blocks") :: nextSearch)
                              (mount []))))
     = Some "blocks".
Proof.
  assert (Hts : "filter" <> "ts") by discriminate.
  assert (Hhash : "filter" <> "hash") by discriminate.
  assert (Hpage : "filter" <> "page") by discriminate.
  repeat (split; [assumption|]).
  exact (proj1 (clearQueryParams_keeps_others "filter"
                  (withSearch (("filter", "blocks") :: nextSearch)
                              (mount []))
                  Hts Hhash Hpage)).
Defined.

(** [fetch_success_settles] on the first fetch of a component opened on a
    'next' link. *)
Lemma fetch_success_settles_witness :
  mounted (mount nextSearch) = true
  /\ nth_error (pending (mount nextSearch)) 0 = Some nextParams
  /\ obtainQueryParams (mount nextSearch) = nextParams
  /\ pending (step 2 acceptAll (mount nextSearch)
                   (Settle 0 (Resolved fullPage) false)) = [].
Proof.
  repeat (split; [reflexivity|]).
  exact (proj2 (proj2 (proj2 (proj2
           (fetch_success_settles 2 acceptAll (mount nextSearch) 0 nextParams
              fullPage eq_refl eq_refl eq_refl))))).
Defined.

(** [handleDataFetched_frame] on a page fetched for an unknown direction. *)
Lemma handleDataFetched_frame_witness :
  mounted (mount []) = true
  /\ hasBefore (state (handleDataFetched
                         fullPage
                         (mkQueryParams None None (Some "sideways"))
                         (mount []))) = false.
Proof.
  split; [reflexivity|].
  refine (proj1 (proj2 (proj2 (proj2 (proj2
            (handleDataFetched_frame fullPage
               (mkQueryParams None None (Some "sideways")) (mount [])
               eq_refl)))) _ _)); discriminate.
Defined.

(** [follow_link] on the 'Next' link of the first page. *)
Lemma follow_link_witness :
  mounted (handleDataFetched fullPage noQueryParams
                             (withPending [] (mount []))) = true
  /\ loading (state (handleDataFetched fullPage noQueryParams
                                       (withPending [] (mount [])))) = false
  /\ pending (handleDataFetched fullPage noQueryParams
                                (withPending [] (mount []))) = []
  /\ "0b" <> ""
  /\ queryParams (state (handleDataFetched fullPage noQueryParams
                                           (withPending [] (mount []))))
     <> nextParams
  /\ pending (step 2 acceptAll
                   (handleDataFetched fullPage noQueryParams
                                      (withPending [] (mount [])))
                   (Render (paginationUrl
                              "20" "0b" "next"
                              (handleDataFetched fullPage noQueryParams
                                                 (withPending [] (mount []))))))
     = [nextParams].
Proof.
  assert (Hh : "0b" <> "") by discriminate.
  assert (Hq : queryParams (state (handleDataFetched
                                     fullPage noQueryParams
                                     (withPending [] (mount []))))
               <> nextParams) by discriminate.
  repeat (split; [reflexivity|]).
  split; [exact Hh|]. split; [exact Hq|].
  exact (proj1 (proj1 (follow_link 2 acceptAll
                         (handleDataFetched fullPage noQueryParams
                                            (withPending [] (mount [])))
                         "20" "0b" "next" lastPage
                         eq_refl eq_refl eq_refl Hh Hq))).
Defined.

(** [loading_iff_pending] on a component whose 'next' fetch has failed and
    is issued again by the next rendering. *)
Lemma loading_iff_pending_witness :
  mounted (run 2 acceptAll (mount [])
               [Settle 0 (Resolved fullPage) false; Render nextSearch;
                Settle 0 (Rejected (JsStr "boom")) false; Render nextSearch]) = true
  /\ pending (run 2 acceptAll (mount [])
                  [Settle 0 (Resolved fullPage) false; Render nextSearch;
                   Settle 0 (Rejected (JsStr "boom")) false; Render nextSearch])
     <> []
  /\ nextDisabled (state (run 2 acceptAll (mount [])
                              [Settle 0 (Resolved fullPage) false;
                               Render nextSearch;
                               Settle 0 (Rejected (JsStr "boom")) false;
                               Render nextSearch])) = true.
Proof.
  assert (Hp : pending (run 2 acceptAll (mount [])
                            [Settle 0 (Resolved fullPage) false;
                             Render nextSearch;
                             Settle 0 (Rejected (JsStr "boom")) false;
                             Render nextSearch]) <> [])
    by (vm_compute; discriminate).
  split; [reflexivity|]. split; [exact Hp|].
  exact (proj2 (proj2 (proj2 (loading_iff_pending 2 acceptAll []
                                [Settle 0 (Resolved fullPage) false;
                                 Render nextSearch;
                                 Settle 0 (Rejected (JsStr "boom")) false;
                                 Render nextSearch])) Hp)).
Defined.
